(** * COLREGs core: navigation geometry (colregs_core/geometry/bearings.py)

    A shallow embedding of the geometry utilities of the encounter
    classification engine, with the properties the specification states
    about them.

    Numbers.  The Python code computes on binary64 floats through numpy.
    Two models are used.

    - [Geometry] reads a float as a real number: [+], [-], [*], [/] and
      [**] are the field operations of [R], [np.sqrt], [np.sin], [np.cos]
      are [sqrt], [sin], [cos], and [%], [np.arctan2], [np.degrees],
      [np.radians] are defined from their mathematical definitions.  It
      says what the functions compute in exact arithmetic; rounding,
      signed zeros, NaN and the infinities are outside it.

    - [Binary64] reads a float as an IEEE 754 binary64 value
      ([spec_float]) for the functions whose arithmetic is the float
      modulo: it shows where rounding takes the result out of the
      half-open range that exact arithmetic gives, and what happens to
      NaN and negative inputs.  The approximations of the platform's
      [sin], [cos] and [atan2] on ordinary arguments are parameters. *)

From Stdlib Require Import Reals Lra Lia ZArith String SpecFloat Bool.

Local Open Scope R_scope.

(** ** The numeric primitives of Python and numpy that the module uses *)

Module Numpy.

(** Python's [a % m] on floats, in exact arithmetic: the remainder of
    the floored division, [a - m * floor (a / m)]; it has the sign of [m]
    and is strictly below [m].  The float operation rounds its result
    and can return [m] itself: see [Binary64.py_mod]. *)
Definition py_mod (a m : R) : R := a - m * IZR (Zfloor (a / m)).

(** [np.degrees] and [np.radians]. *)
Definition degrees (x : R) : R := x * (180 / PI).
Definition radians (x : R) : R := x * (PI / 180).

(** [np.arctan2 y x], in exact arithmetic: the angle of the point
    [(x, y)] in (-PI, PI], with the convention [arctan2 0 0 = 0].  The
    reals have one zero; the float function tells [-0.0] from [0.0]
    (see [Binary64.np_arctan2]). *)
Definition arctan2 (y x : R) : R :=
  if Rlt_dec 0 x then atan (y / x)
  else if Rlt_dec x 0 then
         if Rle_dec 0 y then atan (y / x) + PI else atan (y / x) - PI
  else if Rlt_dec 0 y then PI / 2
  else if Rlt_dec y 0 then - (PI / 2)
  else 0.

End Numpy.

(** ** bearings.py *)

Module Geometry.

Import Numpy.

(** A [Tuple[float, float]]: positions [(x, y)] and velocities [(vx, vy)]. *)
Definition position : Type := (R * R)%type.
Definition velocity : Type := (R * R)%type.

Definition normalize_angle (angle : R) : R :=
  py_mod (angle + 180) 360 - 180.

Definition normalize_angle_360 (angle : R) : R :=
  py_mod angle 360.

Definition calculate_relative_bearing
    (os_position : position) (os_heading : R) (ts_position : position) : R :=
  let dx := fst ts_position - fst os_position in
  let dy := snd ts_position - snd os_position in
  let absolute_bearing := degrees (arctan2 dx dy) in
  let relative_bearing := absolute_bearing - os_heading in
  normalize_angle_360 relative_bearing.

Definition calculate_distance (pos1 pos2 : position) : R :=
  let dx := fst pos2 - fst pos1 in
  let dy := snd pos2 - snd pos1 in
  sqrt (dx ^ 2 + dy ^ 2).

Definition calculate_relative_velocity
    (os_velocity ts_velocity : velocity) : velocity :=
  (fst ts_velocity - fst os_velocity, snd ts_velocity - snd os_velocity).

Definition heading_to_velocity (heading speed : R) : velocity :=
  let heading_rad := radians heading in
  let vx := speed * sin heading_rad in
  let vy := speed * cos heading_rad in
  (vx, vy).

Definition velocity_to_heading_speed (v : velocity) : R * R :=
  let '(vx, vy) := v in
  let speed := sqrt (vx ^ 2 + vy ^ 2) in
  let heading := degrees (arctan2 vx vy) in
  (normalize_angle_360 heading, speed).

Definition calculate_aspect_angle
    (ts_heading : R) (os_position ts_position : position) : R :=
  let dx := fst os_position - fst ts_position in
  let dy := snd os_position - snd ts_position in
  let absolute_bearing := degrees (arctan2 dx dy) in
  let aspect := absolute_bearing - ts_heading in
  normalize_angle_360 aspect.

(** The literal [1e-6] of the coincidence test. *)
Definition range_eps : R := 1 / 1000000.

Definition calculate_bearing_rate
    (os_position : position) (os_velocity : velocity)
    (ts_position : position) (ts_velocity : velocity) : R :=
  let dx := fst ts_position - fst os_position in
  let dy := snd ts_position - snd os_position in
  let range_sq := dx ^ 2 + dy ^ 2 in
  if Rlt_dec range_sq range_eps then 0
  else
    let dvx := fst ts_velocity - fst os_velocity in
    let dvy := snd ts_velocity - snd os_velocity in
    let cross_product := dx * dvy - dy * dvx in
    let bearing_rate_rad := cross_product / range_sq in
    degrees bearing_rate_rad.

End Geometry.

(** ** Vocabulary of the specification: plane vectors *)

Module Vec.

Definition vec : Type := (R * R)%type.

Definition sub (a b : vec) : vec := (fst a - fst b, snd a - snd b).
Definition add (a b : vec) : vec := (fst a + fst b, snd a + snd b).
Definition scale (k : R) (a : vec) : vec := (k * fst a, k * snd a).
Definition neg (a : vec) : vec := (- fst a, - snd a).
Definition dot (a b : vec) : R := fst a * fst b + snd a * snd b.
Definition cross (a b : vec) : R := fst a * snd b - snd a * fst b.
Definition norm_sq (a : vec) : R := fst a ^ 2 + snd a ^ 2.
Definition norm (a : vec) : R := sqrt (norm_sq a).

End Vec.

(** ** Closest point of approach *)

Module ClosestApproach.

Import Geometry.

(** The time to the closest point of approach is a real number or the
    value [+inf] that the specification gives to two ships without
    relative motion (the test checks it with [np.isinf]). *)
Inductive tcpa_value : Type :=
| Finite (t : R)
| PlusInf.

(** Modelled from the spec: [calculate_cpa_tcpa] (section 4.2,
    ClosestApproach).  The module that defines it is not among the
    sources; only its tests (tests/test_cpa_tcpa.py) are.  The
    specification leaves the threshold of the relative-speed test
    unnamed, so it is the parameter [eps]. *)
Definition calculate_cpa_tcpa (eps : R)
    (os_position : position) (os_velocity : velocity)
    (ts_position : position) (ts_velocity : velocity) : R * tcpa_value :=
  let rx := fst ts_position - fst os_position in
  let ry := snd ts_position - snd os_position in
  let v := calculate_relative_velocity os_velocity ts_velocity in
  let vx := fst v in
  let vy := snd v in
  let v_sq := vx ^ 2 + vy ^ 2 in
  if Rlt_dec v_sq eps then (sqrt (rx ^ 2 + ry ^ 2), PlusInf)
  else
    let tcpa := - (rx * vx + ry * vy) / v_sq in
    (sqrt ((rx + vx * tcpa) ^ 2 + (ry + vy * tcpa) ^ 2), Finite tcpa).

End ClosestApproach.

(** ** The ships of the simulation harness
    (tests/test_simulation_integration.py)

    [Ship] is a dataclass whose [step] overwrites [self.position]; here
    [step] returns the ship after the step. *)

Module Simulation.

Record Ship : Type := mkShip {
  id : String.string;
  position : Geometry.position;
  heading : R;
  speed : R
}.

Definition get_velocity (self : Ship) : Geometry.velocity :=
  Geometry.heading_to_velocity (heading self) (speed self).

Definition step (self : Ship) (dt : R) : Ship :=
  let '(vx, vy) := get_velocity self in
  {| id := id self;
     position := (fst (position self) + vx * dt,
                  snd (position self) + vy * dt);
     heading := heading self;
     speed := speed self |}.

(** [step()] with the default [dt = 1.0]. *)
Definition step_default (self : Ship) : Ship := step self 1.

End Simulation.

(** ** The float modulo and the bearings in binary64

    Floats are [spec_float] values with the binary64 parameters, and the
    arithmetic is the correctly rounded arithmetic of [SpecFloat]. *)

Module Binary64.

Definition float : Type := spec_float.

Definition prec : Z := 53.
Definition emax : Z := 1024.

(** The float nearest to [m * 2 ^ e]. *)
Definition b64 (m e : Z) : float := binary_normalize prec emax m e false.

Definition nan : float := S754_nan.
Definition zero : float := S754_zero false.
Definition one : float := b64 1 0.
Definition f180 : float := b64 180 0.
Definition f360 : float := b64 360 0.

(** The floats nearest to pi, pi/2, pi/4 and 3 pi/4. *)
Definition pi : float := b64 0x1921fb54442d18 (-51).
Definition pi_2 : float := b64 0x1921fb54442d18 (-52).
Definition pi_4 : float := b64 0x1921fb54442d18 (-53).
Definition three_pi_4 : float := b64 0x12d97c7f3321d2 (-51).

Definition add : float -> float -> float := SFadd prec emax.
Definition sub : float -> float -> float := SFsub prec emax.
Definition mul : float -> float -> float := SFmul prec emax.
Definition div : float -> float -> float := SFdiv prec emax.
Definition opp : float -> float := SFopp.
Definition ltb : float -> float -> bool := SFltb.

(** C's [fmod]: the exact remainder of the truncated division, with the
    sign of [x].  The remainder of two floats is a float, so nothing is
    rounded. *)
Definition fmod (x y : float) : float :=
  match x, y with
  | S754_nan, _ | _, S754_nan => nan
  | S754_infinity _, _ | _, S754_zero _ => nan
  | S754_zero _, _ => x
  | S754_finite _ _ _, S754_infinity _ => x
  | S754_finite sx mx ex, S754_finite _ my ey =>
      let e := Z.min ex ey in
      let r := Z.rem (Zpos mx * 2 ^ (ex - e)) (Zpos my * 2 ^ (ey - e)) in
      binary_normalize prec emax (if sx then Z.opp r else r) e sx
  end.

(** Python's [v % w] on floats (CPython's [float_rem], numpy's
    [remainder]): [fmod], then [w] is added when the signs of the
    remainder and of [w] differ, and this addition is rounded; a zero
    remainder takes the sign of [w].  The only modulus in bearings.py is
    the literal 360; for [w = 0] numpy returns NaN, as here, and CPython
    raises [ZeroDivisionError]. *)
Definition py_mod (v w : float) : float :=
  match fmod v w with
  | S754_zero _ =>
      match w with
      | S754_zero s | S754_infinity s | S754_finite s _ _ => S754_zero s
      | S754_nan => nan
      end
  | S754_nan => nan
  | m => if xorb (ltb w zero) (ltb m zero) then add m w else m
  end.

(** [np.degrees] and [np.radians]: one multiplication by the constant
    [180.0 / pi], respectively [pi / 180.0]. *)
Definition degrees (x : float) : float := mul x (div f180 pi).
Definition radians (x : float) : float := mul x (div pi f180).

Definition with_sign (s : bool) (x : float) : float :=
  if s then opp x else x.


(** Inputs used below: 1e-20, and the float just below -180
    (-180.00000000000003). *)
Definition tiny : float := b64 0x179ca10c924223 (-119).
Definition below_minus_180 : float := b64 (-0x16800000000001) (-45).

Section Libm.

(** The platform's [sin], [cos] and [atan2] on ordinary arguments. *)
Variables libm_sin libm_cos : float -> float.
Variable libm_atan2 : float -> float -> float.

(** [np.sin], [np.cos] and [np.arctan2]: the values that IEEE 754 and
    C (Annex F) fix for zeros, infinities and NaN, and the platform's
    approximation elsewhere. *)
Definition np_sin (x : float) : float :=
  match x with
  | S754_nan | S754_infinity _ => nan
  | S754_zero _ => x
  | S754_finite _ _ _ => libm_sin x
  end.

Definition np_cos (x : float) : float :=
  match x with
  | S754_nan | S754_infinity _ => nan
  | S754_zero _ => one
  | S754_finite _ _ _ => libm_cos x
  end.

Definition np_arctan2 (y x : float) : float :=
  match y, x with
  | S754_nan, _ | _, S754_nan => nan
  | S754_zero sy, S754_zero sx
  | S754_zero sy, S754_infinity sx
  | S754_zero sy, S754_finite sx _ _
  | S754_finite sy _ _, S754_infinity sx =>
      with_sign sy (if sx then pi else zero)
  | S754_infinity sy, S754_infinity sx =>
      with_sign sy (if sx then three_pi_4 else pi_4)
  | S754_infinity sy, _ | S754_finite sy _ _, S754_zero _ =>
      with_sign sy pi_2
  | S754_finite _ _ _, S754_finite _ _ _ => libm_atan2 y x
  end.

Definition normalize_angle (angle : float) : float :=
  sub (py_mod (add angle f180) f360) f180.

Definition normalize_angle_360 (angle : float) : float :=
  py_mod angle f360.

Definition calculate_relative_bearing
    (os_position : float * float) (os_heading : float)
    (ts_position : float * float) : float :=
  let dx := sub (fst ts_position) (fst os_position) in
  let dy := sub (snd ts_position) (snd os_position) in
  let absolute_bearing := degrees (np_arctan2 dx dy) in
  let relative_bearing := sub absolute_bearing os_heading in
  normalize_angle_360 relative_bearing.

Definition heading_to_velocity (heading speed : float) : float * float :=
  let heading_rad := radians heading in
  let vx := mul speed (np_sin heading_rad) in
  let vy := mul speed (np_cos heading_rad) in
  (vx, vy).

Definition calculate_aspect_angle
    (ts_heading : float) (os_position ts_position : float * float) : float :=
  let dx := sub (fst os_position) (fst ts_position) in
  let dy := sub (snd os_position) (snd ts_position) in
  let absolute_bearing := degrees (np_arctan2 dx dy) in
  let aspect := sub absolute_bearing ts_heading in
  normalize_angle_360 aspect.

End Libm.

End Binary64.

(** ** Facts about the primitives *)

Section ModFacts.

Import Numpy.

Variable m : R.
Hypothesis m_pos : 0 < m.

Lemma py_mod_range (a : R) : 0 <= py_mod a m < m.
Proof.
  unfold py_mod.
  destruct (Zfloor_bound (a / m)) as [Hlo Hhi].
  assert (Ha : a = m * (a / m)) by (field; lra).
  split.
  - apply Rmult_le_compat_l with (r := m) in Hlo; lra.
  - apply Rmult_lt_compat_l with (r := m) in Hhi; lra.
Qed.

Lemma py_mod_small (a : R) : 0 <= a < m -> py_mod a m = a.
Proof.
  intros [Hlo Hhi]. unfold py_mod.
  assert (Hz : Zfloor (a / m) = 0%Z).
  { apply Zfloor_eq. simpl. split.
    - apply Rmult_le_pos; [lra | left; apply Rinv_0_lt_compat; lra].
    - apply Rmult_lt_reg_r with (r := m); [lra |].
      unfold Rdiv. rewrite Rmult_assoc, Rinv_l by lra. lra. }
  rewrite Hz. simpl. lra.
Qed.

Lemma py_mod_idem (a : R) : py_mod (py_mod a m) m = py_mod a m.
Proof. apply py_mod_small, py_mod_range. Qed.

Lemma py_mod_shift (a : R) (k : Z) : py_mod (a + IZR k * m) m = py_mod a m.
Proof.
  unfold py_mod.
  replace ((a + IZR k * m) / m) with (a / m + IZR k) by (field; lra).
  rewrite Zfloor_addz, plus_IZR. ring.
Qed.

End ModFacts.

(** ** The angle of a point given in polar form *)

Section Arctan2Polar.

Import Numpy.

Lemma tan_shift_PI (x : R) : cos x <> 0 -> tan (x + PI) = tan x.
Proof.
  intros Hc. unfold tan. rewrite neg_sin, neg_cos. field. exact Hc.
Qed.

Lemma cos_pos_quadrant (phi : R) :
  - PI < phi <= PI -> 0 < cos phi -> - (PI / 2) < phi < PI / 2.
Proof.
  intros [Hlo Hhi] Hc. split.
  - destruct (Rlt_dec (- (PI / 2)) phi) as [|Hn]; [assumption | exfalso].
    assert (H : cos (- phi) <= 0) by (apply cos_le_0; lra).
    rewrite cos_neg in H. lra.
  - destruct (Rlt_dec phi (PI / 2)) as [|Hn]; [assumption | exfalso].
    assert (H : cos phi <= 0) by (apply cos_le_0; lra).
    lra.
Qed.

Lemma sin_nonneg_half (phi : R) :
  - PI < phi <= PI -> 0 <= sin phi -> 0 <= phi.
Proof.
  intros [Hlo Hhi] Hs.
  destruct (Rle_dec 0 phi) as [|Hn]; [assumption | exfalso].
  assert (H : sin phi < 0) by (apply sin_lt_0_var; lra).
  lra.
Qed.

Lemma sin_neg_half (phi : R) :
  - PI < phi <= PI -> sin phi < 0 -> phi < 0.
Proof.
  intros [Hlo Hhi] Hs.
  destruct (Rlt_dec phi 0) as [|Hn]; [assumption | exfalso].
  assert (H : 0 <= sin phi) by (apply sin_ge_0; lra).
  lra.
Qed.

Lemma cos_neg_upper (phi : R) :
  0 <= phi <= PI -> cos phi < 0 -> PI / 2 < phi.
Proof.
  intros [Hlo Hhi] Hc.
  destruct (Rlt_dec (PI / 2) phi) as [|Hn]; [assumption | exfalso].
  assert (H : 0 <= cos phi) by (apply cos_ge_0; lra).
  lra.
Qed.

Lemma cos_neg_lower (phi : R) :
  - PI < phi < 0 -> cos phi < 0 -> phi < - (PI / 2).
Proof.
  intros [Hlo Hhi] Hc.
  destruct (Rlt_dec phi (- (PI / 2))) as [|Hn]; [assumption | exfalso].
  assert (H : 0 <= cos phi) by (apply cos_ge_0; lra).
  lra.
Qed.

Lemma cos_zero_half (phi : R) :
  - PI < phi <= PI -> cos phi = 0 -> phi = PI / 2 \/ phi = - (PI / 2).
Proof.
  intros [Hlo Hhi] Hc.
  destruct (Rtotal_order phi (PI / 2)) as [Hlt | [Heq | Hgt]].
  - destruct (Rtotal_order phi (- (PI / 2))) as [Hlt' | [Heq' | Hgt']].
    + exfalso.
      assert (H : cos (- phi) < 0) by (apply cos_lt_0; lra).
      rewrite cos_neg in H. lra.
    + now right.
    + exfalso.
      assert (H : 0 < cos phi) by (apply cos_gt_0; lra).
      lra.
  - now left.
  - exfalso.
    assert (H : cos phi < 0) by (apply cos_lt_0; lra).
    lra.
Qed.

Lemma polar_ratio (r phi : R) :
  0 < r -> cos phi <> 0 -> r * sin phi / (r * cos phi) = tan phi.
Proof. intros Hr Hc. unfold tan. field. split; [exact Hc | lra]. Qed.

(** [arctan2] recovers the angle of every point off the origin. *)
Lemma arctan2_polar (r phi : R) :
  0 < r -> - PI < phi <= PI ->
  arctan2 (r * sin phi) (r * cos phi) = phi.
Proof.
  intros Hr Hphi. pose proof PI_RGT_0 as Hpi. unfold arctan2.
  destruct (Rlt_dec 0 (r * cos phi)) as [Hx | Hx].
  - assert (Hc : 0 < cos phi) by nra.
    rewrite polar_ratio by lra.
    apply atan_tan. now apply cos_pos_quadrant.
  - destruct (Rlt_dec (r * cos phi) 0) as [Hx' | Hx'].
    + assert (Hc : cos phi < 0) by nra.
      rewrite polar_ratio by lra.
      destruct (Rle_dec 0 (r * sin phi)) as [Hy | Hy].
      * assert (Hs : 0 <= sin phi) by nra.
        pose proof (sin_nonneg_half phi Hphi Hs) as H0.
        assert (H1 : PI / 2 < phi) by (apply cos_neg_upper; lra).
        replace phi with ((phi - PI) + PI) at 1 by ring.
        rewrite tan_shift_PI.
        -- rewrite atan_tan by lra. ring.
        -- replace (phi - PI) with (phi + - PI) by ring.
           rewrite cos_plus, cos_neg, sin_neg, cos_PI, sin_PI. lra.
      * assert (Hs : sin phi < 0) by nra.
        pose proof (sin_neg_half phi Hphi Hs) as H0.
        assert (H1 : phi < - (PI / 2)) by (apply cos_neg_lower; lra).
        rewrite <- (tan_shift_PI phi) by lra.
        rewrite atan_tan by lra. ring.
    + assert (Hc : cos phi = 0) by nra.
      destruct (cos_zero_half phi Hphi Hc) as [-> | ->].
      * rewrite sin_PI2.
        destruct (Rlt_dec 0 (r * 1)) as [_ | Hn]; [reflexivity | lra].
      * rewrite sin_neg, sin_PI2.
        destruct (Rlt_dec 0 (r * - (1))) as [Hp | _]; [lra |].
        destruct (Rlt_dec (r * - (1)) 0) as [_ | Hn]; [reflexivity | lra].
Qed.

Lemma arctan2_origin : arctan2 0 0 = 0.
Proof.
  unfold arctan2.
  destruct (Rlt_dec 0 0) as [H | _]; [lra | reflexivity].
Qed.


Lemma degrees_radians (h : R) : degrees (radians h) = h.
Proof.
  unfold degrees, radians. pose proof PI_RGT_0. field. lra.
Qed.

End Arctan2Polar.

(** ** Angle normalisation *)

Section Normalisation.

Import Numpy Geometry.

Lemma R360_pos : 0 < 360.
Proof. lra. Qed.

Lemma normalize_angle_360_range (a : R) : 0 <= normalize_angle_360 a < 360.
Proof. unfold normalize_angle_360. apply py_mod_range, R360_pos. Qed.

Lemma normalize_angle_range (a : R) : -180 <= normalize_angle a < 180.
Proof.
  unfold normalize_angle.
  pose proof (py_mod_range 360 R360_pos (a + 180)). lra.
Qed.

Lemma normalize_angle_360_idem (a : R) :
  normalize_angle_360 (normalize_angle_360 a) = normalize_angle_360 a.
Proof. unfold normalize_angle_360. apply py_mod_idem, R360_pos. Qed.

Lemma normalize_angle_idem (a : R) :
  normalize_angle (normalize_angle a) = normalize_angle a.
Proof.
  unfold normalize_angle.
  replace (py_mod (a + 180) 360 - 180 + 180) with (py_mod (a + 180) 360)
    by ring.
  now rewrite (py_mod_idem 360 R360_pos).
Qed.

(** A whole number of revolutions does not change the result. *)
Lemma normalize_angle_360_turns (a : R) (k : Z) :
  normalize_angle_360 (a + IZR k * 360) = normalize_angle_360 a.
Proof. unfold normalize_angle_360. apply py_mod_shift, R360_pos. Qed.

Lemma normalize_angle_360_fixed (a : R) :
  0 <= a < 360 -> normalize_angle_360 a = a.
Proof. unfold normalize_angle_360. apply py_mod_small, R360_pos. Qed.

(** In exact arithmetic, for every angle, negative and multi-revolution
    ones included, [normalize_angle] lands in [-180, 180) and
    [normalize_angle_360] in [0, 360), and applying either function a
    second time changes nothing.  The float functions leave the range at
    its open end: [normalize_angle_binary64_out_of_range]. *)
Theorem normalize_angle_range_idempotent (a : R) :
  (-180 <= normalize_angle a < 180) /\
  (0 <= normalize_angle_360 a < 360) /\
  normalize_angle (normalize_angle a) = normalize_angle a /\
  normalize_angle_360 (normalize_angle_360 a) = normalize_angle_360 a.
Proof.
  split; [apply normalize_angle_range |].
  split; [apply normalize_angle_360_range |].
  split; [apply normalize_angle_idem | apply normalize_angle_360_idem].
Qed.

(** Two sample reductions: a negative angle and more than one turn. *)
Example normalize_angle_360_minus_90 : normalize_angle_360 (-90) = 270.
Proof.
  replace (-90) with (270 + IZR (-1) * 360) by (simpl; lra).
  rewrite normalize_angle_360_turns.
  apply normalize_angle_360_fixed. lra.
Qed.

Example normalize_angle_810 : normalize_angle 810 = 90.
Proof.
  unfold normalize_angle.
  replace (810 + 180) with (270 + IZR 2 * 360) by (simpl; lra).
  rewrite (py_mod_shift 360 R360_pos).
  rewrite (py_mod_small 360 R360_pos) by lra. lra.
Qed.

End Normalisation.

(** ** Bearings, distance and aspect *)

Section Bearings.

Import Numpy Geometry.

(** In exact arithmetic the relative bearing and the aspect angle are
    always in [0, 360) and the distance is never negative.  In floats
    the two angles can be 360.0: [bearing_binary64_out_of_range]. *)
Theorem bearing_aspect_distance_ranges
    (os_position ts_position : position) (os_heading ts_heading : R) :
  (0 <= calculate_relative_bearing os_position os_heading ts_position < 360)
  /\ (0 <= calculate_aspect_angle ts_heading os_position ts_position < 360)
  /\ 0 <= calculate_distance os_position ts_position.
Proof.
  split; [| split].
  - unfold calculate_relative_bearing. apply normalize_angle_360_range.
  - unfold calculate_aspect_angle. apply normalize_angle_360_range.
  - unfold calculate_distance. apply sqrt_pos.
Qed.

(** C8: the aspect angle of the target is the relative bearing computed
    from the target's side: own ship's position seen from the target's
    position and heading. *)
Theorem aspect_angle_is_swapped_relative_bearing
    (h : R) (p q : position) :
  calculate_aspect_angle h p q = calculate_relative_bearing q h p.
Proof.
  unfold calculate_aspect_angle, calculate_relative_bearing.
  reflexivity.
Qed.

(** C10: the distance does not depend on the order of the two positions. *)
Theorem calculate_distance_sym (p1 p2 : position) :
  calculate_distance p1 p2 = calculate_distance p2 p1.
Proof.
  unfold calculate_distance. f_equal. ring.
Qed.

Lemma calculate_distance_norm (p1 p2 : position) :
  calculate_distance p1 p2 = Vec.norm (Vec.sub p2 p1).
Proof. reflexivity. Qed.

End Bearings.

(** ** Bearing rate *)

Section BearingRate.

Import Numpy Geometry.

Lemma range_eps_pos : 0 < range_eps.
Proof. unfold range_eps. lra. Qed.

(** C5: the bearing rate is 0 when the squared range is below the
    threshold, and otherwise the cross product of relative position and
    relative velocity over the squared range, in degrees; the divisor of
    the second case is at least the threshold, hence not zero. *)
Theorem calculate_bearing_rate_spec
    (os_position : position) (os_velocity : velocity)
    (ts_position : position) (ts_velocity : velocity) :
  let r := Vec.sub ts_position os_position in
  let v_rel := calculate_relative_velocity os_velocity ts_velocity in
  (Vec.norm_sq r < range_eps /\
   calculate_bearing_rate os_position os_velocity ts_position ts_velocity = 0)
  \/
  (range_eps <= Vec.norm_sq r /\ 0 < Vec.norm_sq r /\
   calculate_bearing_rate os_position os_velocity ts_position ts_velocity
   = degrees (Vec.cross r v_rel / Vec.norm_sq r)).
Proof.
  intros r v_rel. unfold calculate_bearing_rate.
  change (fst ts_position - fst os_position) with (fst r).
  change (snd ts_position - snd os_position) with (snd r).
  change (fst ts_velocity - fst os_velocity) with (fst v_rel).
  change (snd ts_velocity - snd os_velocity) with (snd v_rel).
  change (fst r ^ 2 + snd r ^ 2) with (Vec.norm_sq r).
  destruct (Rlt_dec (Vec.norm_sq r) range_eps) as [Hlt | Hge].
  - left. split; [exact Hlt | reflexivity].
  - right. pose proof range_eps_pos.
    split; [lra | split; [lra | reflexivity]].
Qed.

(** C9: exchanging the two ships negates both the relative position and
    the relative velocity, which changes neither the cross product nor
    the squared range, so the bearing rate is the same. *)
Theorem calculate_bearing_rate_exchange
    (os_position : position) (os_velocity : velocity)
    (ts_position : position) (ts_velocity : velocity) :
  calculate_bearing_rate os_position os_velocity ts_position ts_velocity
  = calculate_bearing_rate ts_position ts_velocity os_position os_velocity.
Proof.
  unfold calculate_bearing_rate.
  destruct os_position as [ox oy], ts_position as [tx ty],
           os_velocity as [ovx ovy], ts_velocity as [tvx tvy].
  cbn [fst snd].
  replace ((ox - tx) ^ 2 + (oy - ty) ^ 2)
    with ((tx - ox) ^ 2 + (ty - oy) ^ 2) by ring.
  destruct (Rlt_dec ((tx - ox) ^ 2 + (ty - oy) ^ 2) range_eps) as [_ | _].
  - reflexivity.
  - f_equal. unfold Rdiv. f_equal. ring.
Qed.

(** A sample value: a target 100 m dead ahead of a stopped own ship,
    crossing eastwards at 1 m/s. *)
Example bearing_rate_sample :
  calculate_bearing_rate (0, 0) (0, 0) (0, 100) (1, 0)
  = degrees (- (1 / 100)).
Proof.
  unfold calculate_bearing_rate. cbn [fst snd].
  destruct (Rlt_dec ((0 - 0) ^ 2 + (100 - 0) ^ 2) range_eps) as [H | _].
  - unfold range_eps in H. lra.
  - f_equal. field.
Qed.

End BearingRate.

(** ** Heading and speed against velocity vectors *)

Section HeadingVelocity.

Import Numpy Geometry.

Lemma polar_speed (s t : R) :
  0 <= s -> sqrt ((s * sin t) ^ 2 + (s * cos t) ^ 2) = s.
Proof.
  intros Hs.
  replace ((s * sin t) ^ 2 + (s * cos t) ^ 2)
    with (s ^ 2 * (Rsqr (sin t) + Rsqr (cos t))) by (unfold Rsqr; ring).
  rewrite sin2_cos2, Rmult_1_r. now apply sqrt_pow2.
Qed.

Lemma radians_range (h : R) :
  0 <= h < 360 -> 0 <= radians h < 2 * PI.
Proof.
  intros [Hlo Hhi]. pose proof PI_RGT_0 as Hpi. unfold radians.
  assert (Hk : 0 < PI / 180) by (apply Rdiv_lt_0_compat; lra).
  split.
  - apply Rmult_le_pos; lra.
  - replace (2 * PI) with (360 * (PI / 180)) by field.
    apply Rmult_lt_compat_r; assumption.
Qed.

Lemma heading_of_polar (h s : R) :
  0 <= h < 360 -> 0 < s ->
  normalize_angle_360
    (degrees (arctan2 (s * sin (radians h)) (s * cos (radians h)))) = h.
Proof.
  intros Hh Hs. pose proof PI_RGT_0 as Hpi.
  pose proof (radians_range h Hh) as Ht.
  destruct (Rle_dec (radians h) PI) as [Hle | Hgt].
  - rewrite arctan2_polar by lra.
    rewrite degrees_radians. now apply normalize_angle_360_fixed.
  - assert (Hsin : sin (radians h) = sin (radians h - 2 * PI)).
    { replace (radians h) with ((radians h - 2 * PI) + 2 * PI) at 1 by ring.
      rewrite sin_plus, sin_2PI, cos_2PI. ring. }
    assert (Hcos : cos (radians h) = cos (radians h - 2 * PI)).
    { replace (radians h) with ((radians h - 2 * PI) + 2 * PI) at 1 by ring.
      rewrite cos_plus, sin_2PI, cos_2PI. ring. }
    rewrite Hsin, Hcos, arctan2_polar by lra.
    replace (degrees (radians h - 2 * PI)) with (h + IZR (-1) * 360).
    + rewrite normalize_angle_360_turns.
      now apply normalize_angle_360_fixed.
    + unfold degrees, radians. simpl. field. lra.
Qed.

(** C4: on headings in [0, 360) and positive speeds, converting to a
    velocity vector and back gives the heading and the speed again.  In
    the real-number model the two are reproduced exactly, hence within
    every tolerance. *)
Theorem heading_velocity_roundtrip (h s : R) :
  0 <= h < 360 -> 0 < s ->
  velocity_to_heading_speed (heading_to_velocity h s) = (h, s).
Proof.
  intros Hh Hs. unfold heading_to_velocity, velocity_to_heading_speed.
  rewrite heading_of_polar by assumption.
  rewrite polar_speed by lra. reflexivity.
Qed.

Lemma heading_velocity_roundtrip_witness :
  (0 <= 90 < 360) /\ 0 < 10 /\
  velocity_to_heading_speed (heading_to_velocity 90 10) = (90, 10).
Proof.
  split; [lra | split; [lra | apply (heading_velocity_roundtrip 90 10); lra]].
Defined.

Corollary heading_velocity_roundtrip_tolerance (h s tol : R) :
  0 <= h < 360 -> 0 < s -> 0 < tol ->
  let hs := velocity_to_heading_speed (heading_to_velocity h s) in
  Rabs (fst hs - h) < tol /\ Rabs (snd hs - s) < tol.
Proof.
  intros Hh Hs Htol hs. unfold hs.
  unfold heading_to_velocity, velocity_to_heading_speed.
  rewrite heading_of_polar by assumption.
  rewrite polar_speed by lra. cbn [fst snd].
  replace (h - h) with 0 by ring. replace (s - s) with 0 by ring.
  rewrite Rabs_R0. split; assumption.
Qed.





End HeadingVelocity.

(** ** Vectors on the axes and negative speeds *)

Section Validation.

Import Numpy Geometry.

Lemma heading_to_velocity_north (s : R) : heading_to_velocity 0 s = (0, s).
Proof.
  unfold heading_to_velocity, radians.
  rewrite Rmult_0_l, sin_0, cos_0. f_equal; ring.
Qed.

Lemma heading_to_velocity_south (s : R) : heading_to_velocity 180 s = (0, - s).
Proof.
  unfold heading_to_velocity, radians.
  replace (180 * (PI / 180)) with PI by field.
  rewrite sin_PI, cos_PI. f_equal; ring.
Qed.

Lemma heading_to_velocity_negated (h s : R) :
  heading_to_velocity h (- s) = Vec.neg (heading_to_velocity h s).
Proof.
  unfold heading_to_velocity, Vec.neg. cbn [fst snd]. f_equal; ring.
Qed.

End Validation.

(** ** Closest point of approach *)

Section ClosestApproachFacts.

Import Numpy Geometry ClosestApproach.

Lemma calculate_cpa_tcpa_still (eps : R)
    (osp : position) (osv : velocity) (tsp : position) (tsv : velocity) :
  Vec.norm_sq (Vec.sub tsv osv) < eps ->
  calculate_cpa_tcpa eps osp osv tsp tsv
  = (Vec.norm (Vec.sub tsp osp), PlusInf).
Proof.
  intros Hlt. unfold calculate_cpa_tcpa, calculate_relative_velocity.
  cbn [fst snd].
  change ((fst tsv - fst osv) ^ 2 + (snd tsv - snd osv) ^ 2)
    with (Vec.norm_sq (Vec.sub tsv osv)).
  destruct (Rlt_dec (Vec.norm_sq (Vec.sub tsv osv)) eps) as [_ | Hn];
    [reflexivity | contradiction].
Qed.

Lemma calculate_cpa_tcpa_moving (eps : R)
    (osp : position) (osv : velocity) (tsp : position) (tsv : velocity) :
  let r := Vec.sub tsp osp in
  let v := Vec.sub tsv osv in
  let t := - Vec.dot r v / Vec.norm_sq v in
  eps <= Vec.norm_sq v ->
  calculate_cpa_tcpa eps osp osv tsp tsv
  = (Vec.norm (Vec.add r (Vec.scale t v)), Finite t).
Proof.
  intros r v t Hge. unfold calculate_cpa_tcpa, calculate_relative_velocity.
  cbn [fst snd].
  change ((fst tsv - fst osv) ^ 2 + (snd tsv - snd osv) ^ 2)
    with (Vec.norm_sq v).
  destruct (Rlt_dec (Vec.norm_sq v) eps) as [Hlt | _]; [lra |].
  f_equal. unfold Vec.norm, Vec.norm_sq, Vec.add, Vec.scale.
  cbn [fst snd]. f_equal.
  unfold t, Vec.dot, Vec.norm_sq, v, r, Vec.sub. cbn [fst snd]. ring.
Qed.

(** C1: with r the relative position and v the relative velocity, the
    result is (|r|, +inf) when |v|^2 is below the threshold and otherwise
    (|r + t v|, t) for t = -(r.v)/|v|^2; t is returned as computed, and
    for every threshold some input gives a negative one. *)
Theorem calculate_cpa_tcpa_cases :
  (forall (eps : R) (osp : position) (osv : velocity)
          (tsp : position) (tsv : velocity),
      let r := Vec.sub tsp osp in
      let v := Vec.sub tsv osv in
      let t := - Vec.dot r v / Vec.norm_sq v in
      (Vec.norm_sq v < eps /\
       calculate_cpa_tcpa eps osp osv tsp tsv = (Vec.norm r, PlusInf))
      \/
      (eps <= Vec.norm_sq v /\
       calculate_cpa_tcpa eps osp osv tsp tsv
       = (Vec.norm (Vec.add r (Vec.scale t v)), Finite t)))
  /\
  (forall eps : R, exists osp osv tsp tsv dcpa t,
      calculate_cpa_tcpa eps osp osv tsp tsv = (dcpa, Finite t) /\ t < 0).
Proof.
  split.
  - intros eps osp osv tsp tsv r v t.
    destruct (Rlt_dec (Vec.norm_sq v) eps) as [Hlt | Hge].
    + left. split; [exact Hlt | now apply calculate_cpa_tcpa_still].
    + right. split; [lra |]. apply calculate_cpa_tcpa_moving. fold v. lra.
  - intros eps.
    set (k := 1 + Rabs eps).
    assert (Hk : 1 <= k) by (unfold k; pose proof (Rabs_pos eps); lra).
    assert (Heps : eps <= Rabs eps) by apply Rle_abs.
    exists (0, 0), (0, 0), (0, 1), (0, k).
    eexists. eexists. split.
    + apply calculate_cpa_tcpa_moving.
      unfold Vec.norm_sq, Vec.sub. cbn [fst snd]. unfold k in *. nra.
    + unfold Vec.dot, Vec.norm_sq, Vec.sub. cbn [fst snd].
      replace (- ((0 - 0) * (0 - 0) + (1 - 0) * (k - 0))
               / ((0 - 0) ^ 2 + (k - 0) ^ 2))
        with (- / k) by (field; lra).
      assert (0 < / k) by (apply Rinv_0_lt_compat; lra). lra.
Qed.

(** The scenarios of tests/test_cpa_tcpa.py. *)

Lemma sqrt_of_zero (x : R) : x = 0 -> sqrt x = 0.
Proof. intros ->. apply sqrt_0. Qed.

(** Two ships 500 m abeam on the same course at the same speed. *)
Lemma cpa_parallel_same_speed (eps : R) :
  0 < eps ->
  calculate_cpa_tcpa eps (0, 0) (heading_to_velocity 0 10)
                         (500, 0) (heading_to_velocity 0 10)
  = (500, PlusInf).
Proof.
  intros Heps. rewrite calculate_cpa_tcpa_still.
  - f_equal. unfold Vec.norm, Vec.norm_sq, Vec.sub. cbn [fst snd].
    replace ((500 - 0) ^ 2 + (0 - 0) ^ 2) with (500 ^ 2) by ring.
    apply sqrt_pow2. lra.
  - rewrite heading_to_velocity_north.
    unfold Vec.norm_sq, Vec.sub. cbn [fst snd]. lra.
Qed.

(** Reciprocal courses, 2000 m apart, closing at 20 m/s. *)
Lemma cpa_collision_course (eps : R) :
  eps <= 400 ->
  calculate_cpa_tcpa eps (0, 0) (heading_to_velocity 0 10)
                         (0, 2000) (heading_to_velocity 180 10)
  = (0, Finite 100).
Proof.
  intros Heps.
  rewrite heading_to_velocity_north, heading_to_velocity_south.
  rewrite calculate_cpa_tcpa_moving.
  - unfold Vec.norm, Vec.norm_sq, Vec.add, Vec.scale, Vec.dot, Vec.sub.
    cbn [fst snd]. f_equal.
    + apply sqrt_of_zero. field_simplify; lra.
    + f_equal. field_simplify; lra.
  - unfold Vec.norm_sq, Vec.sub. cbn [fst snd]. lra.
Qed.

(** The same two ships after they have passed: the time is negative. *)
Lemma cpa_receding (eps : R) :
  eps <= 400 ->
  calculate_cpa_tcpa eps (0, 1000) (heading_to_velocity 0 10)
                         (0, 0) (heading_to_velocity 180 10)
  = (0, Finite (-50)).
Proof.
  intros Heps.
  rewrite heading_to_velocity_north, heading_to_velocity_south.
  rewrite calculate_cpa_tcpa_moving.
  - unfold Vec.norm, Vec.norm_sq, Vec.add, Vec.scale, Vec.dot, Vec.sub.
    cbn [fst snd]. f_equal.
    + apply sqrt_of_zero. field_simplify; lra.
    + f_equal. field_simplify; lra.
  - unfold Vec.norm_sq, Vec.sub. cbn [fst snd]. lra.
Qed.

End ClosestApproachFacts.

(** ** More on the primitives: whole turns and polar coordinates *)

Section TurnsAndPolar.

Import Numpy Geometry.

Lemma sin_cos_turns_nat (x : R) (n : nat) :
  sin (x + IZR (Z.of_nat n) * (2 * PI)) = sin x /\
  cos (x + IZR (Z.of_nat n) * (2 * PI)) = cos x.
Proof.
  rewrite <- INR_IZR_INZ.
  replace (x + INR n * (2 * PI)) with (x + 2 * INR n * PI) by ring.
  split; [apply sin_period | apply cos_period].
Qed.

Lemma sin_cos_turns (x : R) (k : Z) :
  sin (x + IZR k * (2 * PI)) = sin x /\
  cos (x + IZR k * (2 * PI)) = cos x.
Proof.
  destruct (Z_le_gt_dec 0 k) as [Hk | Hk].
  - rewrite <- (Z2Nat.id k Hk). apply sin_cos_turns_nat.
  - assert (Hn : (0 <= - k)%Z) by lia.
    destruct (sin_cos_turns_nat (x + IZR k * (2 * PI)) (Z.to_nat (- k)))
      as [Hs Hc].
    rewrite (Z2Nat.id _ Hn), opp_IZR in Hs, Hc.
    replace (x + IZR k * (2 * PI) + - IZR k * (2 * PI)) with x in Hs, Hc
      by ring.
    split; symmetry; assumption.
Qed.

Lemma radians_turns (a : R) (k : Z) :
  radians (a + IZR k * 360) = radians a + IZR k * (2 * PI).
Proof. unfold radians. field. Qed.

Lemma py_mod_decompose (a m : R) :
  a = py_mod a m + IZR (Zfloor (a / m)) * m.
Proof. unfold py_mod. ring. Qed.

Lemma normalize_angle_360_decompose (a : R) :
  exists k : Z, a = normalize_angle_360 a + IZR k * 360.
Proof.
  exists (Zfloor (a / 360)). unfold normalize_angle_360.
  apply py_mod_decompose.
Qed.

(** The trigonometric functions do not see the normalisation. *)
Lemma sin_cos_normalize_angle_360 (a : R) :
  sin (radians (normalize_angle_360 a)) = sin (radians a) /\
  cos (radians (normalize_angle_360 a)) = cos (radians a).
Proof.
  destruct (normalize_angle_360_decompose a) as [k Hk].
  rewrite Hk at 2 4. rewrite radians_turns.
  destruct (sin_cos_turns (radians (normalize_angle_360 a)) k) as [Hs Hc].
  split; symmetry; assumption.
Qed.

Lemma radians_degrees (x : R) : radians (degrees x) = x.
Proof.
  unfold degrees, radians. pose proof PI_RGT_0. field. lra.
Qed.

Lemma arctan2_range (y x : R) : - PI < arctan2 y x <= PI.
Proof.
  pose proof PI_RGT_0 as Hpi. unfold arctan2.
  destruct (Rlt_dec 0 x) as [Hx | Hx].
  - pose proof (atan_bound (y / x)). lra.
  - destruct (Rlt_dec x 0) as [Hx' | Hx'].
    + destruct (Rle_dec 0 y) as [Hy | Hy].
      * assert (Ht : y / x <= 0).
        { assert (/ x < 0) by now apply Rinv_lt_0_compat.
          unfold Rdiv. nra. }
        pose proof (atan_bound (y / x)) as Hb.
        assert (Ha : atan (y / x) <= 0).
        { destruct Ht as [Ht | Ht].
          - left. rewrite <- atan_0. now apply atan_increasing.
          - rewrite Ht, atan_0. lra. }
        lra.
      * assert (Ht : 0 < y / x).
        { assert (/ x < 0) by now apply Rinv_lt_0_compat.
          unfold Rdiv. nra. }
        pose proof (atan_bound (y / x)) as Hb.
        assert (Ha : 0 < atan (y / x)).
        { rewrite <- atan_0. now apply atan_increasing. }
        lra.
    + destruct (Rlt_dec 0 y); [lra |].
      destruct (Rlt_dec y 0); lra.
Qed.

Lemma norm_scaled_by_tangent (x y : R) :
  x <> 0 -> sqrt (y ^ 2 + x ^ 2) = Rabs x * sqrt (1 + (y / x)²).
Proof.
  intros Hx.
  rewrite <- sqrt_Rsqr_abs, <- sqrt_mult_alt by apply Rle_0_sqr.
  f_equal. unfold Rsqr. field. exact Hx.
Qed.

Lemma sqrt_one_plus_sqr_pos (t : R) : 0 < sqrt (1 + t²).
Proof.
  apply sqrt_lt_R0. pose proof (Rle_0_sqr t). lra.
Qed.

(** [arctan2 y x] together with the norm are polar coordinates of the
    point: they give the point back, the origin included. *)
Lemma arctan2_decompose (y x : R) :
  sqrt (y ^ 2 + x ^ 2) * sin (arctan2 y x) = y /\
  sqrt (y ^ 2 + x ^ 2) * cos (arctan2 y x) = x.
Proof.
  unfold arctan2.
  destruct (Rlt_dec 0 x) as [Hx | Hx].
  - rewrite norm_scaled_by_tangent by lra.
    rewrite sin_atan, cos_atan, Rabs_pos_eq by lra.
    pose proof (sqrt_one_plus_sqr_pos (y / x)).
    split; field; lra.
  - destruct (Rlt_dec x 0) as [Hx' | Hx'].
    + rewrite norm_scaled_by_tangent by lra.
      rewrite Rabs_left by assumption.
      pose proof (sqrt_one_plus_sqr_pos (y / x)).
      destruct (Rle_dec 0 y) as [Hy | Hy].
      * rewrite neg_sin, neg_cos, sin_atan, cos_atan. split; field; lra.
      * replace (atan (y / x) - PI) with (atan (y / x) + - PI) by ring.
        rewrite sin_plus, cos_plus, sin_neg, cos_neg, sin_PI, cos_PI.
        rewrite sin_atan, cos_atan. split; field; lra.
    + assert (Hx0 : x = 0) by lra. subst x.
      replace (y ^ 2 + 0 ^ 2) with (y ^ 2) by ring.
      destruct (Rlt_dec 0 y) as [Hy | Hy].
      * rewrite sqrt_pow2, sin_PI2, cos_PI2 by lra. split; ring.
      * destruct (Rlt_dec y 0) as [Hy' | Hy'].
        -- replace (y ^ 2) with ((- y) ^ 2) by ring.
           rewrite sqrt_pow2, sin_neg, cos_neg, sin_PI2, cos_PI2 by lra.
           split; ring.
        -- assert (Hy0 : y = 0) by lra. subst y.
           replace (0 ^ 2) with 0 by ring. rewrite sqrt_0. split; ring.
Qed.

Lemma norm_pos_off_origin (y x : R) :
  (y, x) <> (0, 0) -> 0 < sqrt (y ^ 2 + x ^ 2).
Proof.
  intros Hne. apply sqrt_lt_R0.
  destruct (Req_dec y 0) as [Hy | Hy]; destruct (Req_dec x 0) as [Hx | Hx].
  - subst. now contradiction Hne.
  - pose proof (Rsqr_pos_lt x Hx) as H. unfold Rsqr in H. nra.
  - pose proof (Rsqr_pos_lt y Hy) as H. unfold Rsqr in H. nra.
  - pose proof (Rsqr_pos_lt y Hy) as H. unfold Rsqr in H. nra.
Qed.

(** The bearing of a point given by a range and a direction in degrees,
    whatever the turn count of the direction. *)
Lemma bearing_of_direction (a d : R) :
  0 < d ->
  normalize_angle_360
    (degrees (arctan2 (d * sin (radians a)) (d * cos (radians a))))
  = normalize_angle_360 a.
Proof.
  intros Hd.
  destruct (sin_cos_normalize_angle_360 a) as [Hs Hc].
  rewrite <- Hs, <- Hc.
  apply heading_of_polar; [apply normalize_angle_360_range | assumption].
Qed.

End TurnsAndPolar.

(** ** The two normalisations as canonical representatives *)

Section Representatives.

Import Numpy Geometry.

Lemma normalize_angle_360_of_rep (b : R) (k : Z) :
  0 <= b < 360 -> normalize_angle_360 (b + IZR k * 360) = b.
Proof.
  intros Hb. rewrite normalize_angle_360_turns.
  now apply normalize_angle_360_fixed.
Qed.

Lemma normalize_angle_of_rep (b : R) (k : Z) :
  -180 <= b < 180 -> normalize_angle (b + IZR k * 360) = b.
Proof.
  intros Hb. unfold normalize_angle.
  replace (b + IZR k * 360 + 180) with ((b + 180) + IZR k * 360) by ring.
  rewrite (py_mod_shift 360 R360_pos).
  rewrite (py_mod_small 360 R360_pos) by lra. ring.
Qed.

Lemma normalize_angle_decompose (a : R) :
  exists k : Z, a = normalize_angle a + IZR k * 360.
Proof.
  exists (Zfloor ((a + 180) / 360)). unfold normalize_angle.
  pose proof (py_mod_decompose (a + 180) 360). lra.
Qed.

(** X1: in exact arithmetic, [normalize_angle_360 a] is the one angle
    of [0, 360) that differs from [a] by a whole number of turns.  (The
    float function can round up to 360.0.) *)
Theorem normalize_angle_360_unique (a b : R) :
  (0 <= b < 360 /\ exists k : Z, a = b + IZR k * 360)
  <-> b = normalize_angle_360 a.
Proof.
  split.
  - intros [Hb [k Hk]]. rewrite Hk.
    symmetry. now apply normalize_angle_360_of_rep.
  - intros ->. split.
    + apply normalize_angle_360_range.
    + apply normalize_angle_360_decompose.
Qed.

(** X2: in exact arithmetic, [normalize_angle a] is the one angle of
    [-180, 180) that differs from [a] by a whole number of turns.  (The
    float function can round up to 180.0.) *)
Theorem normalize_angle_unique (a b : R) :
  (-180 <= b < 180 /\ exists k : Z, a = b + IZR k * 360)
  <-> b = normalize_angle a.
Proof.
  split.
  - intros [Hb [k Hk]]. rewrite Hk.
    symmetry. now apply normalize_angle_of_rep.
  - intros ->. split.
    + apply normalize_angle_range.
    + apply normalize_angle_decompose.
Qed.

Lemma normalize_angle_below_180 (a : R) :
  normalize_angle_360 a < 180 -> normalize_angle a = normalize_angle_360 a.
Proof.
  intros Hlt. destruct (normalize_angle_360_decompose a) as [k Hk].
  pose proof (normalize_angle_360_range a) as Hr.
  rewrite Hk at 1. apply normalize_angle_of_rep. lra.
Qed.

Lemma normalize_angle_from_180 (a : R) :
  180 <= normalize_angle_360 a ->
  normalize_angle a = normalize_angle_360 a - 360.
Proof.
  intros Hge. destruct (normalize_angle_360_decompose a) as [k Hk].
  pose proof (normalize_angle_360_range a) as Hr.
  replace a with ((normalize_angle_360 a - 360) + IZR (k + 1) * 360) at 1
    by (rewrite plus_IZR; lra).
  apply normalize_angle_of_rep. lra.
Qed.

(** X3: in exact arithmetic, the signed normalisation is the unsigned
    one with the upper half turn moved down by 360, and each of the two
    can be recovered from the other. *)
Theorem normalize_angle_vs_360 (a : R) :
  (normalize_angle a = normalize_angle_360 a /\ normalize_angle_360 a < 180
   \/
   normalize_angle a = normalize_angle_360 a - 360
   /\ 180 <= normalize_angle_360 a)
  /\ normalize_angle_360 (normalize_angle a) = normalize_angle_360 a
  /\ normalize_angle (normalize_angle_360 a) = normalize_angle a.
Proof.
  split; [| split].
  - destruct (Rlt_dec (normalize_angle_360 a) 180) as [Hlt | Hge].
    + left. split; [now apply normalize_angle_below_180 | assumption].
    + right. split; [apply normalize_angle_from_180; lra | lra].
  - destruct (normalize_angle_decompose a) as [k Hk].
    rewrite Hk at 2. now rewrite normalize_angle_360_turns.
  - destruct (normalize_angle_360_decompose a) as [k Hk].
    pose proof (normalize_angle_range a) as Hr.
    destruct (normalize_angle_decompose a) as [j Hj].
    replace (normalize_angle_360 a)
      with (normalize_angle a + IZR (j - k) * 360)
      by (rewrite minus_IZR; lra).
    now apply normalize_angle_of_rep.
Qed.

Lemma normalize_angle_360_plus (a b : R) :
  normalize_angle_360 (a + b)
  = normalize_angle_360 (normalize_angle_360 a + normalize_angle_360 b).
Proof.
  destruct (normalize_angle_360_decompose a) as [k Hk].
  destruct (normalize_angle_360_decompose b) as [j Hj].
  replace (a + b)
    with ((normalize_angle_360 a + normalize_angle_360 b)
          + IZR (k + j) * 360)
    by (rewrite plus_IZR; lra).
  apply normalize_angle_360_turns.
Qed.

Lemma normalize_angle_360_minus (a b : R) :
  normalize_angle_360 (a - b)
  = normalize_angle_360 (normalize_angle_360 a - b).
Proof.
  destruct (normalize_angle_360_decompose a) as [k Hk].
  replace (a - b) with ((normalize_angle_360 a - b) + IZR k * 360) by lra.
  apply normalize_angle_360_turns.
Qed.

(** X4: in exact arithmetic, normalisation commutes with sums and
    differences of angles: normalising the operands first does not
    change the normalised result. *)
Theorem normalize_angle_360_additive (a b : R) :
  normalize_angle_360 (a + b)
  = normalize_angle_360 (normalize_angle_360 a + normalize_angle_360 b)
  /\ normalize_angle_360 (a - b)
     = normalize_angle_360 (normalize_angle_360 a - normalize_angle_360 b).
Proof.
  split; [apply normalize_angle_360_plus |].
  destruct (normalize_angle_360_decompose b) as [j Hj].
  rewrite normalize_angle_360_minus.
  replace (normalize_angle_360 a - b)
    with ((normalize_angle_360 a - normalize_angle_360 b)
          + IZR (- j) * 360)
    by (rewrite opp_IZR; lra).
  apply normalize_angle_360_turns.
Qed.

End Representatives.

(** ** The distance is a metric *)

Section DistanceMetric.

Import Numpy Geometry.

Lemma sum_sqr_nonneg (x y : R) : 0 <= x ^ 2 + y ^ 2.
Proof. nra. Qed.

(** X5: the distance is 0 exactly between a position and itself. *)
Theorem calculate_distance_zero_iff (p1 p2 : position) :
  calculate_distance p1 p2 = 0 <-> p1 = p2.
Proof.
  destruct p1 as [x1 y1], p2 as [x2 y2].
  unfold calculate_distance. cbn [fst snd]. split.
  - intros H. apply sqrt_eq_0 in H; [| apply sum_sqr_nonneg].
    replace ((x2 - x1) ^ 2 + (y2 - y1) ^ 2)
      with (Rsqr (x2 - x1) + Rsqr (y2 - y1)) in H by (unfold Rsqr; ring).
    apply Rplus_sqr_eq_0 in H. destruct H as [Hx Hy].
    f_equal; lra.
  - intros H. injection H as -> ->.
    replace ((x2 - x2) ^ 2 + (y2 - y2) ^ 2) with 0 by ring.
    apply sqrt_0.
Qed.

Lemma norm_triangle (a b c d : R) :
  sqrt ((a + c) ^ 2 + (b + d) ^ 2)
  <= sqrt (a ^ 2 + b ^ 2) + sqrt (c ^ 2 + d ^ 2).
Proof.
  pose proof (sqrt_pos (a ^ 2 + b ^ 2)) as Hp.
  pose proof (sqrt_pos (c ^ 2 + d ^ 2)) as Hq.
  apply Rsqr_incr_0_var; [| lra].
  rewrite Rsqr_sqrt by apply sum_sqr_nonneg.
  unfold Rsqr at 1.
  pose proof (sqrt_sqrt _ (sum_sqr_nonneg a b)) as Ha.
  pose proof (sqrt_sqrt _ (sum_sqr_nonneg c d)) as Hc.
  pose proof (sqrt_cauchy a b c d) as Hcs. unfold Rsqr in Hcs.
  replace (a * a + b * b) with (a ^ 2 + b ^ 2) in Hcs by ring.
  replace (c * c + d * d) with (c ^ 2 + d ^ 2) in Hcs by ring.
  nra.
Qed.

(** X6: the triangle inequality: going through a third position is never
    shorter. *)
Theorem calculate_distance_triangle (p1 p2 p3 : position) :
  calculate_distance p1 p3
  <= calculate_distance p1 p2 + calculate_distance p2 p3.
Proof.
  unfold calculate_distance.
  replace (fst p3 - fst p1) with ((fst p2 - fst p1) + (fst p3 - fst p2))
    by ring.
  replace (snd p3 - snd p1) with ((snd p2 - snd p1) + (snd p3 - snd p2))
    by ring.
  apply norm_triangle.
Qed.

Lemma norm_scale (k x y : R) :
  sqrt ((k * x) ^ 2 + (k * y) ^ 2) = Rabs k * sqrt (x ^ 2 + y ^ 2).
Proof.
  rewrite <- sqrt_Rsqr_abs, <- sqrt_mult_alt by apply Rle_0_sqr.
  f_equal. unfold Rsqr. ring.
Qed.

(** X7: the distance does not change when both positions are moved by
    the same vector, and scales with the absolute value of a common
    factor (a change of unit). *)
Theorem calculate_distance_translate_scale
    (p1 p2 t : position) (k : R) :
  calculate_distance (Vec.add p1 t) (Vec.add p2 t) = calculate_distance p1 p2
  /\ calculate_distance (Vec.scale k p1) (Vec.scale k p2)
     = Rabs k * calculate_distance p1 p2.
Proof.
  unfold calculate_distance, Vec.add, Vec.scale. cbn [fst snd]. split.
  - f_equal. ring.
  - rewrite <- norm_scale. f_equal. ring.
Qed.

End DistanceMetric.

(** ** Heading and speed: the conversions beyond the principal domain *)

Section HeadingSpeedGeneral.

Import Numpy Geometry.

Lemma unit_norm (t : R) : sqrt (sin t ^ 2 + cos t ^ 2) = 1.
Proof.
  replace (sin t ^ 2 + cos t ^ 2) with (Rsqr (sin t) + Rsqr (cos t))
    by (unfold Rsqr; ring).
  rewrite sin2_cos2. apply sqrt_1.
Qed.

Lemma polar_speed_abs (s t : R) :
  sqrt ((s * sin t) ^ 2 + (s * cos t) ^ 2) = Rabs s.
Proof. rewrite norm_scale, unit_norm. ring. Qed.

(** X8: the vector of [heading_to_velocity] has the absolute value of
    the speed as its length, for every heading and every speed, negative
    ones included. *)
Theorem heading_to_velocity_magnitude (h s : R) :
  snd (velocity_to_heading_speed (heading_to_velocity h s)) = Rabs s
  /\ calculate_distance (0, 0) (heading_to_velocity h s) = Rabs s.
Proof.
  unfold heading_to_velocity, velocity_to_heading_speed, calculate_distance.
  cbn [fst snd]. split.
  - apply polar_speed_abs.
  - rewrite <- (polar_speed_abs s (radians h)). f_equal. ring.
Qed.

Lemma heading_to_velocity_turns (h s : R) (k : Z) :
  heading_to_velocity (h + IZR k * 360) s = heading_to_velocity h s.
Proof.
  unfold heading_to_velocity. rewrite radians_turns.
  destruct (sin_cos_turns (radians h) k) as [-> ->]. reflexivity.
Qed.

(** X9: the velocity vector depends on the heading only up to whole
    turns, so a heading may be normalised either way before it is
    converted. *)
Theorem heading_to_velocity_periodic (h s : R) (k : Z) :
  heading_to_velocity (h + IZR k * 360) s = heading_to_velocity h s
  /\ heading_to_velocity (normalize_angle_360 h) s = heading_to_velocity h s
  /\ heading_to_velocity (normalize_angle h) s = heading_to_velocity h s.
Proof.
  split; [apply heading_to_velocity_turns | split].
  - destruct (normalize_angle_360_decompose h) as [j Hj].
    rewrite Hj at 2. now rewrite heading_to_velocity_turns.
  - destruct (normalize_angle_decompose h) as [j Hj].
    rewrite Hj at 2. now rewrite heading_to_velocity_turns.
Qed.

Lemma radians_half_turn (h : R) : radians (h + 180) = radians h + PI.
Proof. unfold radians. field. Qed.

Lemma heading_to_velocity_reversed (h s : R) :
  heading_to_velocity (h + 180) s = heading_to_velocity h (- s).
Proof.
  unfold heading_to_velocity.
  rewrite radians_half_turn, neg_sin, neg_cos. f_equal; ring.
Qed.

(** X10: for a positive speed and any heading, converting to a vector
    and back gives the heading normalised to [0, 360) and the speed. *)
Theorem heading_velocity_roundtrip_any_heading (h s : R) :
  0 < s ->
  velocity_to_heading_speed (heading_to_velocity h s)
  = (normalize_angle_360 h, s).
Proof.
  intros Hs. unfold heading_to_velocity, velocity_to_heading_speed.
  rewrite bearing_of_direction by assumption.
  rewrite polar_speed by lra. reflexivity.
Qed.

Lemma heading_velocity_roundtrip_any_heading_witness :
  0 < 10 /\
  velocity_to_heading_speed (heading_to_velocity (-90) 10)
  = (normalize_angle_360 (-90), 10).
Proof.
  split; [lra | apply (heading_velocity_roundtrip_any_heading (-90) 10); lra].
Defined.

(** X11: in exact arithmetic, a negative speed comes back as the
    opposite heading with the positive speed: going astern on heading h
    is read as going ahead on h + 180.  (In floats the heading read back
    agrees up to rounding modulo 360: 360.0 can come back for 0.) *)
Theorem heading_velocity_roundtrip_astern (h s : R) :
  s < 0 ->
  velocity_to_heading_speed (heading_to_velocity h s)
  = (normalize_angle_360 (h + 180), - s).
Proof.
  intros Hs.
  replace s with (- - s) at 1 by ring.
  rewrite <- heading_to_velocity_reversed.
  unfold heading_to_velocity, velocity_to_heading_speed.
  rewrite bearing_of_direction by lra.
  rewrite polar_speed by lra. reflexivity.
Qed.

Lemma heading_velocity_roundtrip_astern_witness :
  -5 < 0 /\
  velocity_to_heading_speed (heading_to_velocity 30 (-5))
  = (normalize_angle_360 (30 + 180), - -5).
Proof.
  split; [lra | apply (heading_velocity_roundtrip_astern 30 (-5)); lra].
Defined.

(** X12: the other round trip holds for every vector, the zero vector
    included: the heading and speed of a velocity give the velocity
    back. *)
Theorem velocity_heading_roundtrip (v : velocity) :
  heading_to_velocity (fst (velocity_to_heading_speed v))
                      (snd (velocity_to_heading_speed v)) = v.
Proof.
  destruct v as [vx vy].
  unfold velocity_to_heading_speed, heading_to_velocity. cbn [fst snd].
  destruct (sin_cos_normalize_angle_360 (degrees (arctan2 vx vy)))
    as [-> ->].
  rewrite radians_degrees.
  destruct (arctan2_decompose vx vy) as [-> ->]. reflexivity.
Qed.

Lemma arctan2_scale (k y x : R) :
  0 < k -> arctan2 (k * y) (k * x) = arctan2 y x.
Proof.
  intros Hk.
  destruct (Req_dec y 0) as [Hy | Hy]; destruct (Req_dec x 0) as [Hx | Hx].
  1: { subst. now rewrite Rmult_0_r. }
  all: assert (Hrho : 0 < sqrt (y ^ 2 + x ^ 2))
         by (apply norm_pos_off_origin; intros H; injection H; lra);
       destruct (arctan2_decompose y x) as [Hs Hc];
       pose proof (arctan2_range y x) as Hr;
       set (theta := arctan2 y x) in *;
       set (rho := sqrt (y ^ 2 + x ^ 2)) in *;
       replace (k * y) with (k * rho * sin theta) by (rewrite <- Hs; ring);
       replace (k * x) with (k * rho * cos theta) by (rewrite <- Hc; ring);
       apply arctan2_polar; [nra | assumption].
Qed.

(** X13: the heading of a velocity does not depend on its magnitude:
    scaling a vector by a positive factor keeps the heading and scales
    the speed. *)
Theorem velocity_to_heading_speed_scale (k : R) (v : velocity) :
  0 < k ->
  velocity_to_heading_speed (Vec.scale k v)
  = (fst (velocity_to_heading_speed v),
     k * snd (velocity_to_heading_speed v)).
Proof.
  intros Hk. destruct v as [vx vy].
  unfold velocity_to_heading_speed, Vec.scale. cbn [fst snd].
  rewrite arctan2_scale by assumption.
  rewrite norm_scale, Rabs_pos_eq by lra. reflexivity.
Qed.

Lemma velocity_to_heading_speed_scale_witness :
  0 < 2 /\
  velocity_to_heading_speed (Vec.scale 2 (3, 4))
  = (fst (velocity_to_heading_speed (3, 4)),
     2 * snd (velocity_to_heading_speed (3, 4))).
Proof.
  split; [lra | apply (velocity_to_heading_speed_scale 2 (3, 4)); lra].
Defined.

End HeadingSpeedGeneral.

(** ** Relative bearing and aspect as polar coordinates *)

Section BearingGeometry.

Import Numpy Geometry.

Lemma bearing_minus_heading (b h : R) :
  normalize_angle_360 (normalize_angle_360 b - h)
  = normalize_angle_360 (b - h).
Proof. symmetry. apply normalize_angle_360_minus. Qed.

Lemma relative_bearing_along (x y h b d : R) :
  0 < d ->
  calculate_relative_bearing
    (x, y) h (x + d * sin (radians b), y + d * cos (radians b))
  = normalize_angle_360 (b - h).
Proof.
  intros Hd. unfold calculate_relative_bearing. cbn [fst snd].
  replace (x + d * sin (radians b) - x) with (d * sin (radians b)) by ring.
  replace (y + d * cos (radians b) - y) with (d * cos (radians b)) by ring.
  rewrite normalize_angle_360_minus.
  rewrite bearing_of_direction by assumption.
  apply bearing_minus_heading.
Qed.

(** X14: in exact arithmetic, a target at range [d > 0] on true
    bearing [b] from own ship is seen on relative bearing [b - h],
    normalised: the function recovers the direction in which the target
    was placed.  (In floats up to rounding modulo 360.) *)
Theorem relative_bearing_of_placed_target
    (os_position : position) (h b d : R) :
  0 < d ->
  calculate_relative_bearing
    os_position h (Vec.add os_position (heading_to_velocity b d))
  = normalize_angle_360 (b - h).
Proof.
  intros Hd. destruct os_position as [x y].
  unfold Vec.add, heading_to_velocity. cbn [fst snd].
  now apply relative_bearing_along.
Qed.

Lemma relative_bearing_of_placed_target_witness :
  0 < 1000 /\
  calculate_relative_bearing
    (0, 0) 30 (Vec.add (0, 0) (heading_to_velocity 75 1000))
  = normalize_angle_360 (75 - 30).
Proof.
  split; [lra |].
  apply (relative_bearing_of_placed_target (0, 0) 30 75 1000); lra.
Defined.

(** X15: relative bearing and distance locate the target: going from own
    ship the computed distance along the direction heading plus relative
    bearing ends on the target position, for every pair of positions. *)
Theorem target_from_bearing_and_distance
    (os_position ts_position : position) (h : R) :
  Vec.add os_position
    (heading_to_velocity
       (calculate_relative_bearing os_position h ts_position + h)
       (calculate_distance os_position ts_position))
  = ts_position.
Proof.
  destruct os_position as [ox oy], ts_position as [tx ty].
  unfold calculate_relative_bearing, calculate_distance. cbn [fst snd].
  set (dx := tx - ox). set (dy := ty - oy).
  destruct (normalize_angle_360_decompose (degrees (arctan2 dx dy) - h))
    as [k Hk].
  replace (normalize_angle_360 (degrees (arctan2 dx dy) - h) + h)
    with (degrees (arctan2 dx dy) + IZR (- k) * 360)
    by (rewrite opp_IZR; lra).
  rewrite heading_to_velocity_turns.
  unfold heading_to_velocity, Vec.add. cbn [fst snd].
  rewrite radians_degrees.
  destruct (arctan2_decompose dx dy) as [-> ->].
  unfold dx, dy. f_equal; ring.
Qed.

(** X16: in exact arithmetic, the relative bearing depends on the
    positions only through their difference, and turning own ship by
    [d] degrees lowers it by [d], modulo 360.  (In floats up to rounding
    modulo 360.) *)
Theorem relative_bearing_translate_turn
    (os_position ts_position t : position) (h d : R) :
  calculate_relative_bearing
    (Vec.add os_position t) h (Vec.add ts_position t)
  = calculate_relative_bearing os_position h ts_position
  /\ calculate_relative_bearing os_position (h + d) ts_position
     = normalize_angle_360
         (calculate_relative_bearing os_position h ts_position - d).
Proof.
  unfold calculate_relative_bearing, Vec.add. cbn [fst snd]. split.
  - replace (fst ts_position + fst t - (fst os_position + fst t))
      with (fst ts_position - fst os_position) by ring.
    replace (snd ts_position + snd t - (snd os_position + snd t))
      with (snd ts_position - snd os_position) by ring.
    reflexivity.
  - rewrite <- normalize_angle_360_minus. f_equal. ring.
Qed.

Lemma reciprocal_bearing (dx dy : R) :
  (dx, dy) <> (0, 0) ->
  normalize_angle_360 (degrees (arctan2 (- dx) (- dy)))
  = normalize_angle_360 (degrees (arctan2 dx dy) + 180).
Proof.
  intros Hne.
  pose proof (norm_pos_off_origin dx dy Hne) as Hrho.
  destruct (arctan2_decompose dx dy) as [Hs Hc].
  set (theta := arctan2 dx dy) in *.
  set (rho := sqrt (dx ^ 2 + dy ^ 2)) in *.
  rewrite <- (bearing_of_direction (degrees theta + 180) rho Hrho).
  rewrite radians_half_turn, radians_degrees, neg_sin, neg_cos.
  replace (rho * - sin theta) with (- dx) by (rewrite <- Hs; ring).
  replace (rho * - cos theta) with (- dy) by (rewrite <- Hc; ring).
  reflexivity.
Qed.

(** X17: in exact arithmetic, for two distinct positions the aspect
    angle is the reciprocal of the true bearing of the target, taken
    relative to the target's heading: relative bearing + own heading
    + 180 - target heading, normalised.  (In floats up to rounding
    modulo 360.) *)
Theorem aspect_from_relative_bearing
    (os_position ts_position : position) (os_heading ts_heading : R) :
  os_position <> ts_position ->
  calculate_aspect_angle ts_heading os_position ts_position
  = normalize_angle_360
      (calculate_relative_bearing os_position os_heading ts_position
       + os_heading + 180 - ts_heading).
Proof.
  intros Hne. destruct os_position as [ox oy], ts_position as [tx ty].
  unfold calculate_aspect_angle, calculate_relative_bearing. cbn [fst snd].
  assert (Hd : (tx - ox, ty - oy) <> (0, 0)).
  { intros H. injection H as Hx Hy. apply Hne. f_equal; lra. }
  replace (ox - tx) with (- (tx - ox)) by ring.
  replace (oy - ty) with (- (ty - oy)) by ring.
  rewrite normalize_angle_360_minus, (reciprocal_bearing _ _ Hd).
  rewrite <- normalize_angle_360_minus.
  replace (normalize_angle_360 (degrees (arctan2 (tx - ox) (ty - oy))
                                - os_heading)
           + os_heading + 180 - ts_heading)
    with (normalize_angle_360 (degrees (arctan2 (tx - ox) (ty - oy))
                               - os_heading)
          - (ts_heading - os_heading - 180)) by ring.
  rewrite <- normalize_angle_360_minus. f_equal. ring.
Qed.

Lemma aspect_from_relative_bearing_witness :
  ((0, 0) : position) <> (1000, 1000) /\
  calculate_aspect_angle 270 (0, 0) (1000, 1000)
  = normalize_angle_360
      (calculate_relative_bearing (0, 0) 0 (1000, 1000) + 0 + 180 - 270).
Proof.
  split.
  - intros H. injection H as Hx Hy. lra.
  - apply (aspect_from_relative_bearing (0, 0) (1000, 1000) 0 270).
    intros H. injection H as Hx Hy. lra.
Defined.

(** X18: two ships on the same position: no error is raised; the true
    bearing is taken as 0 (north), so both the relative bearing and the
    aspect angle are minus the heading, normalised. *)
Theorem bearing_of_coincident_ships (p : position) (h : R) :
  calculate_relative_bearing p h p = normalize_angle_360 (- h)
  /\ calculate_aspect_angle h p p = normalize_angle_360 (- h).
Proof.
  unfold calculate_relative_bearing, calculate_aspect_angle.
  replace (fst p - fst p) with 0 by ring.
  replace (snd p - snd p) with 0 by ring.
  rewrite arctan2_origin.
  replace (degrees 0 - h) with (- h) by (unfold degrees; ring).
  split; reflexivity.
Qed.

End BearingGeometry.

(** ** Bearing rate: when it vanishes, what it ignores, how large it is *)

Section BearingRateGeometry.

Import Numpy Geometry.

Lemma degrees_factor_pos : 0 < 180 / PI.
Proof. apply Rdiv_lt_0_compat; [lra | apply PI_RGT_0]. Qed.

Lemma calculate_bearing_rate_far
    (os_position : position) (os_velocity : velocity)
    (ts_position : position) (ts_velocity : velocity) :
  let r := Vec.sub ts_position os_position in
  let v_rel := calculate_relative_velocity os_velocity ts_velocity in
  range_eps <= Vec.norm_sq r ->
  calculate_bearing_rate os_position os_velocity ts_position ts_velocity
  = degrees (Vec.cross r v_rel / Vec.norm_sq r).
Proof.
  intros r v_rel Hge. unfold calculate_bearing_rate.
  change (fst ts_position - fst os_position) with (fst r).
  change (snd ts_position - snd os_position) with (snd r).
  change (fst r ^ 2 + snd r ^ 2) with (Vec.norm_sq r).
  destruct (Rlt_dec (Vec.norm_sq r) range_eps) as [Hlt | _]; [lra |].
  reflexivity.
Qed.

(** X19: outside the coincidence threshold the bearing rate is 0 exactly
    when the relative velocity is parallel to the line of sight (their
    cross product is 0): the constant-bearing situation. *)
Theorem bearing_rate_zero_iff_parallel
    (os_position : position) (os_velocity : velocity)
    (ts_position : position) (ts_velocity : velocity) :
  range_eps <= Vec.norm_sq (Vec.sub ts_position os_position) ->
  (calculate_bearing_rate os_position os_velocity ts_position ts_velocity = 0
   <->
   Vec.cross (Vec.sub ts_position os_position)
             (calculate_relative_velocity os_velocity ts_velocity) = 0).
Proof.
  intros Hge. rewrite calculate_bearing_rate_far by assumption.
  pose proof range_eps_pos as He. pose proof degrees_factor_pos as Hk.
  set (c := Vec.cross _ _). set (n := Vec.norm_sq _) in *.
  unfold degrees, Rdiv. split.
  - intros H.
    apply Rmult_integral in H. destruct H as [H | H]; [| lra].
    apply Rmult_integral in H. destruct H as [H | H]; [assumption |].
    assert (0 < / n) by (apply Rinv_0_lt_compat; lra). lra.
  - intros ->. ring.
Qed.

Lemma bearing_rate_zero_iff_parallel_witness :
  range_eps <= Vec.norm_sq (Vec.sub (0, 2000) (0, 0)) /\
  (calculate_bearing_rate (0, 0) (0, 10) (0, 2000) (0, -10) = 0
   <->
   Vec.cross (Vec.sub (0, 2000) (0, 0))
             (calculate_relative_velocity (0, 10) (0, -10)) = 0).
Proof.
  assert (H : range_eps <= Vec.norm_sq (Vec.sub (0, 2000) (0, 0))).
  { unfold range_eps, Vec.norm_sq, Vec.sub. cbn [fst snd]. lra. }
  split; [exact H |].
  exact (bearing_rate_zero_iff_parallel (0, 0) (0, 10) (0, 2000) (0, -10) H).
Defined.

(** X20: the bearing rate depends only on the relative position and the
    relative velocity (moving both ships by the same vector, or adding
    the same velocity to both, changes nothing), and exchanging the two
    velocities changes its sign. *)
Theorem bearing_rate_relative_only
    (os_position : position) (os_velocity : velocity)
    (ts_position : position) (ts_velocity : velocity)
    (t : position) (w : velocity) :
  calculate_bearing_rate (Vec.add os_position t) (Vec.add os_velocity w)
                         (Vec.add ts_position t) (Vec.add ts_velocity w)
  = calculate_bearing_rate os_position os_velocity ts_position ts_velocity
  /\ calculate_bearing_rate os_position ts_velocity ts_position os_velocity
     = - calculate_bearing_rate
           os_position os_velocity ts_position ts_velocity.
Proof.
  unfold calculate_bearing_rate, Vec.add. cbn [fst snd].
  replace (fst ts_position + fst t - (fst os_position + fst t))
    with (fst ts_position - fst os_position) by ring.
  replace (snd ts_position + snd t - (snd os_position + snd t))
    with (snd ts_position - snd os_position) by ring.
  set (dx := fst ts_position - fst os_position).
  set (dy := snd ts_position - snd os_position).
  destruct (Rlt_dec (dx ^ 2 + dy ^ 2) range_eps) as [Hlt | Hge].
  - split; [reflexivity | ring].
  - split.
    + f_equal. unfold Rdiv. f_equal. ring.
    + unfold degrees, Rdiv. ring.
Qed.

Lemma cross_le_norms (a b c d : R) :
  Rabs (a * d - b * c) <= sqrt (a ^ 2 + b ^ 2) * sqrt (c ^ 2 + d ^ 2).
Proof.
  apply Rabs_le. split.
  - pose proof (sqrt_cauchy a b (- d) c) as H. unfold Rsqr in H.
    replace (a * a + b * b) with (a ^ 2 + b ^ 2) in H by ring.
    replace (- d * - d + c * c) with (c ^ 2 + d ^ 2) in H by ring.
    lra.
  - pose proof (sqrt_cauchy a b d (- c)) as H. unfold Rsqr in H.
    replace (a * a + b * b) with (a ^ 2 + b ^ 2) in H by ring.
    replace (d * d + - c * - c) with (c ^ 2 + d ^ 2) in H by ring.
    lra.
Qed.

(** X21: the bearing can not turn faster than the relative speed allows:
    the absolute bearing rate times the distance is at most the relative
    speed, in degrees; this holds in the coincident case too. *)
Theorem bearing_rate_bound
    (os_position : position) (os_velocity : velocity)
    (ts_position : position) (ts_velocity : velocity) :
  Rabs (calculate_bearing_rate
          os_position os_velocity ts_position ts_velocity)
  * calculate_distance os_position ts_position
  <= degrees (calculate_distance os_velocity ts_velocity).
Proof.
  pose proof degrees_factor_pos as Hk. pose proof range_eps_pos as He.
  unfold calculate_bearing_rate, calculate_distance.
  set (dx := fst ts_position - fst os_position).
  set (dy := snd ts_position - snd os_position).
  set (dvx := fst ts_velocity - fst os_velocity).
  set (dvy := snd ts_velocity - snd os_velocity).
  pose proof (sqrt_pos (dvx ^ 2 + dvy ^ 2)) as Hv.
  destruct (Rlt_dec (dx ^ 2 + dy ^ 2) range_eps) as [Hlt | Hge].
  - rewrite Rabs_R0, Rmult_0_l. unfold degrees.
    apply Rmult_le_pos; lra.
  - assert (Hn : 0 < dx ^ 2 + dy ^ 2) by lra.
    pose proof (sqrt_lt_R0 _ Hn) as Hrho.
    pose proof (sqrt_sqrt (dx ^ 2 + dy ^ 2) (Rlt_le _ _ Hn)) as Hsq.
    pose proof (cross_le_norms dx dy dvx dvy) as Hc.
    set (rho := sqrt (dx ^ 2 + dy ^ 2)) in *.
    set (V := sqrt (dvx ^ 2 + dvy ^ 2)) in *.
    unfold degrees.
    rewrite Rabs_mult, (Rabs_pos_eq (180 / PI)) by lra.
    unfold Rdiv at 1. rewrite Rabs_mult.
    rewrite (Rabs_pos_eq (/ (dx ^ 2 + dy ^ 2)))
      by (left; now apply Rinv_0_lt_compat).
    rewrite <- Hsq.
    replace (Rabs (dx * dvy - dy * dvx) * / (rho * rho) * (180 / PI) * rho)
      with (Rabs (dx * dvy - dy * dvx) * / rho * (180 / PI))
      by (field; split; [apply PI_neq0 | lra]).
    apply Rmult_le_compat_r; [lra |].
    apply Rmult_le_reg_r with (r := rho); [assumption |].
    rewrite Rmult_assoc, Rinv_l by lra. lra.
Qed.

End BearingRateGeometry.

(** ** Ships under way: the simulation step *)

Section ShipSteps.

Import Numpy Geometry.
Import Simulation.

Lemma step_position (s : Ship) (dt : R) :
  Simulation.position (step s dt)
  = (fst (Simulation.position s)
     + speed s * dt * sin (radians (heading s)),
     snd (Simulation.position s)
     + speed s * dt * cos (radians (heading s))).
Proof.
  unfold step, get_velocity, heading_to_velocity. cbn. f_equal; ring.
Qed.

Lemma step_fields (s : Ship) (dt : R) :
  id (step s dt) = id s /\ heading (step s dt) = heading s
  /\ speed (step s dt) = speed s.
Proof. unfold step, get_velocity, heading_to_velocity. cbn. auto. Qed.

(** X22: a step changes nothing but the position, which moves by
    |speed * dt|; hence the velocity of the ship is the same after the
    step. *)
Theorem step_moves_by_speed_dt (s : Ship) (dt : R) :
  id (step s dt) = id s
  /\ heading (step s dt) = heading s
  /\ speed (step s dt) = speed s
  /\ get_velocity (step s dt) = get_velocity s
  /\ calculate_distance (Simulation.position s)
                        (Simulation.position (step s dt))
     = Rabs (speed s * dt).
Proof.
  destruct (step_fields s dt) as [Hi [Hh Hs]].
  split; [exact Hi | split; [exact Hh | split; [exact Hs | split]]].
  - unfold get_velocity. now rewrite Hh, Hs.
  - rewrite step_position. unfold calculate_distance. cbn [fst snd].
    rewrite <- (polar_speed_abs (speed s * dt) (radians (heading s))).
    f_equal. ring.
Qed.

Lemma step_add (s : Ship) (dt1 dt2 : R) :
  step (step s dt1) dt2 = step s (dt1 + dt2).
Proof.
  destruct s as [i [x y] h v].
  unfold step, get_velocity, heading_to_velocity. cbn.
  f_equal. f_equal; ring.
Qed.

Lemma step_zero (s : Ship) : step s 0 = s.
Proof.
  destruct s as [i [x y] h v].
  unfold step, get_velocity, heading_to_velocity. cbn.
  f_equal. f_equal; ring.
Qed.

(** X23: steps add up: two steps in a row are one step of the summed
    time, a step of no time changes nothing, and a step is undone by the
    step of the opposite time. *)
Theorem step_composition (s : Ship) (dt1 dt2 : R) :
  step (step s dt1) dt2 = step s (dt1 + dt2)
  /\ step s 0 = s
  /\ step (step s dt1) (- dt1) = s.
Proof.
  split; [apply step_add | split; [apply step_zero |]].
  rewrite step_add. replace (dt1 + - dt1) with 0 by ring. apply step_zero.
Qed.

(** X24: running the simulation loop: [n] steps of [dt] put the ship
    where a single step of [n * dt] puts it. *)
Theorem step_iterated (s : Ship) (dt : R) (n : nat) :
  Nat.iter n (fun ship => step ship dt) s = step s (INR n * dt).
Proof.
  induction n as [| n IH].
  - replace (INR 0 * dt) with 0 by (simpl; ring).
    rewrite step_zero. reflexivity.
  - rewrite Nat.iter_succ, IH, step_add. f_equal.
    rewrite S_INR. ring.
Qed.

(** X25: in exact arithmetic, a ship moving ahead ends its step dead
    ahead of where it started (relative bearing 0), and a ship moving
    astern ends it dead astern (relative bearing 180).  (In floats the
    bearing ahead is 0 up to rounding modulo 360, so 360.0 occurs.) *)
Theorem step_goes_along_heading (s : Ship) (dt : R) :
  (0 < speed s * dt ->
   calculate_relative_bearing
     (Simulation.position s) (heading s) (Simulation.position (step s dt))
   = 0)
  /\
  (speed s * dt < 0 ->
   calculate_relative_bearing
     (Simulation.position s) (heading s) (Simulation.position (step s dt))
   = 180).
Proof.
  rewrite step_position.
  destruct (Simulation.position s) as [x y]. cbn [fst snd]. split; intros H.
  - rewrite relative_bearing_along by assumption.
    replace (heading s - heading s) with 0 by ring.
    apply normalize_angle_360_fixed. lra.
  - replace (speed s * dt * sin (radians (heading s)))
      with (- (speed s * dt) * sin (radians (heading s + 180)))
      by (rewrite radians_half_turn, neg_sin; ring).
    replace (speed s * dt * cos (radians (heading s)))
      with (- (speed s * dt) * cos (radians (heading s + 180)))
      by (rewrite radians_half_turn, neg_cos; ring).
    rewrite relative_bearing_along by lra.
    replace (heading s + 180 - heading s) with 180 by ring.
    apply normalize_angle_360_fixed. lra.
Qed.

(** X26: linear relative motion: after both ships have made the same
    step, the position of one relative to the other has changed by the
    step time times their relative velocity. *)
Theorem steps_relative_position (a b : Ship) (dt : R) :
  Vec.sub (Simulation.position (step b dt)) (Simulation.position (step a dt))
  = Vec.add (Vec.sub (Simulation.position b) (Simulation.position a))
            (Vec.scale dt
               (calculate_relative_velocity (get_velocity a)
                                            (get_velocity b))).
Proof.
  rewrite !step_position.
  unfold Vec.sub, Vec.add, Vec.scale, calculate_relative_velocity,
    get_velocity, heading_to_velocity.
  cbn [fst snd]. f_equal; ring.
Qed.

(** X27: in exact arithmetic, two ships with the same velocity keep
    station on each other: after both have made the same step their
    distance and the relative bearing of one from the other are what
    they were, and the bearing rate between them is 0.  (In floats the
    bearing is kept up to rounding modulo 360.) *)
Theorem same_velocity_keeps_station (a b : Ship) (dt h : R) :
  get_velocity a = get_velocity b ->
  calculate_distance (Simulation.position (step a dt))
                     (Simulation.position (step b dt))
  = calculate_distance (Simulation.position a) (Simulation.position b)
  /\ calculate_relative_bearing (Simulation.position (step a dt)) h
                                (Simulation.position (step b dt))
     = calculate_relative_bearing (Simulation.position a) h
                                  (Simulation.position b)
  /\ calculate_bearing_rate (Simulation.position a) (get_velocity a)
                            (Simulation.position b) (get_velocity b)
     = 0.
Proof.
  intros Hv.
  assert (Hsc : speed a * sin (radians (heading a))
                = speed b * sin (radians (heading b))
                /\ speed a * cos (radians (heading a))
                   = speed b * cos (radians (heading b))).
  { unfold get_velocity, heading_to_velocity in Hv.
    injection Hv as Hs Hc. split; assumption. }
  destruct Hsc as [Hsin Hcos].
  assert (Ex : fst (Simulation.position (step b dt))
               - fst (Simulation.position (step a dt))
               = fst (Simulation.position b) - fst (Simulation.position a)).
  { rewrite !step_position. cbn [fst snd].
    transitivity
      (fst (Simulation.position b) - fst (Simulation.position a)
       + dt * (speed b * sin (radians (heading b))
               - speed a * sin (radians (heading a)))); [ring |].
    rewrite Hsin. ring. }
  assert (Ey : snd (Simulation.position (step b dt))
               - snd (Simulation.position (step a dt))
               = snd (Simulation.position b) - snd (Simulation.position a)).
  { rewrite !step_position. cbn [fst snd].
    transitivity
      (snd (Simulation.position b) - snd (Simulation.position a)
       + dt * (speed b * cos (radians (heading b))
               - speed a * cos (radians (heading a)))); [ring |].
    rewrite Hcos. ring. }
  unfold calculate_distance, calculate_relative_bearing,
    calculate_bearing_rate.
  rewrite Ex, Ey, Hv.
  split; [reflexivity | split; [reflexivity |]].
  destruct (Rlt_dec _ range_eps); [reflexivity |].
  unfold degrees, Rdiv. ring.
Qed.

Lemma same_velocity_keeps_station_witness :
  get_velocity (mkShip "OS" (0, 0) 0 10)
  = get_velocity (mkShip "TS-01" (500, 0) 0 10) /\
  calculate_distance
    (Simulation.position (step (mkShip "OS" (0, 0) 0 10) 1))
    (Simulation.position (step (mkShip "TS-01" (500, 0) 0 10) 1))
  = calculate_distance
      (Simulation.position (mkShip "OS" (0, 0) 0 10))
      (Simulation.position (mkShip "TS-01" (500, 0) 0 10)).
Proof.
  split; [reflexivity |].
  apply (same_velocity_keeps_station
           (mkShip "OS" (0, 0) 0 10) (mkShip "TS-01" (500, 0) 0 10) 1 0).
  reflexivity.
Defined.

End ShipSteps.

(** ** Binary64: where the float modulo leaves the range, and what
    passes through unvalidated *)

Section Binary64Facts.

Import Binary64.

(** C2: at the open end of the range the float functions differ from
    their documentation: [normalize_angle_360 (-1e-20)] is 360.0, not
    below 360, and a second application gives 0.0;
    [normalize_angle (-180.00000000000003)] is 180.0, not below 180, and
    a second application gives -180.0. *)
Theorem normalize_angle_binary64_out_of_range :
  normalize_angle_360 (opp tiny) = f360
  /\ ltb (normalize_angle_360 (opp tiny)) f360 = false
  /\ normalize_angle_360 (normalize_angle_360 (opp tiny)) = zero
  /\ normalize_angle below_minus_180 = f180
  /\ ltb (normalize_angle below_minus_180) f180 = false
  /\ normalize_angle (normalize_angle below_minus_180) = opp f180.
Proof. vm_compute. repeat split. Qed.

(** C3: own ship at the origin on heading 1e-20 with the target due
    north, whatever the platform's [atan2]: the true bearing is exactly
    0, the difference -1e-20, and the relative bearing comes out as
    360.0, which is not below 360; the aspect angle of the mirrored
    situation likewise. *)
Theorem bearing_binary64_out_of_range
    (libm_atan2 : float -> float -> float) :
  calculate_relative_bearing libm_atan2 (zero, zero) tiny (zero, one) = f360
  /\ calculate_aspect_angle libm_atan2 tiny (zero, one) (zero, zero) = f360
  /\ ltb f360 f360 = false.
Proof. vm_compute. repeat split. Qed.










(** The float modulo agrees with the exact one on ordinary angles. *)
Example normalize_angle_360_binary64_samples :
  normalize_angle_360 (b64 (-90) 0) = b64 270 0
  /\ normalize_angle_360 (b64 810 0) = b64 90 0
  /\ normalize_angle (b64 270 0) = b64 (-90) 0
  /\ normalize_angle_360 f360 = zero.
Proof. vm_compute. repeat split. Qed.

End Binary64Facts.
